(** * A Rocq model of [cube.py]: cube state, face turns and manual input

    The class [RubiksCube] keeps one attribute, [faces]: a dictionary from
    the six face keys to a list of three rows of three one-character
    strings.  The methods mutate that attribute in place, so they are
    embedded here as computations of a state-and-exception monad: the state
    is the object, and the only exception the methods can raise is Python's
    [IndexError] (a list or a string indexed out of range).

    Characters are 8-bit [ascii] values, strings are [string], a list is a
    [list], read with stdpp's lookup and updated with stdpp's insert, the
    out-of-range case being written out as a raised [IndexError]. *)

From Stdlib Require Import Ascii String.
From stdpp Require Import base list.
From Stdlib Require Import Lia.

Local Open Scope string_scope.
Local Open Scope char_scope.
Local Open Scope list_scope.

(** ** The object state *)

(** The keys of [self.faces].  The dictionary is created with these six
    keys and no method adds or removes one. *)
Inductive face_key : Type := U | D | F | B | L | R.

Definition row : Type := list ascii.
Definition grid : Type := list row.

(** One field per key of [self.faces]. *)
Record RubiksCube : Type := mkCube {
  face_U : grid;
  face_D : grid;
  face_F : grid;
  face_B : grid;
  face_L : grid;
  face_R : grid
}.

(** [self.faces[k]]. *)
Definition faces (c : RubiksCube) (k : face_key) : grid :=
  match k with
  | U => face_U c | D => face_D c | F => face_F c
  | B => face_B c | L => face_L c | R => face_R c
  end.

(** [self.faces[k] = g]. *)
Definition store_face (c : RubiksCube) (k : face_key) (g : grid) : RubiksCube :=
  match k with
  | U => mkCube g (face_D c) (face_F c) (face_B c) (face_L c) (face_R c)
  | D => mkCube (face_U c) g (face_F c) (face_B c) (face_L c) (face_R c)
  | F => mkCube (face_U c) (face_D c) g (face_B c) (face_L c) (face_R c)
  | B => mkCube (face_U c) (face_D c) (face_F c) g (face_L c) (face_R c)
  | L => mkCube (face_U c) (face_D c) (face_F c) (face_B c) g (face_R c)
  | R => mkCube (face_U c) (face_D c) (face_F c) (face_B c) (face_L c) g
  end.

(** [[[x for _ in range(3)] for _ in range(3)]]. *)
Definition uniform_grid (x : ascii) : grid := replicate 3 (replicate 3 x).

(** [RubiksCube.__init__]: the solved cube. *)
Definition init : RubiksCube :=
  {| face_U := uniform_grid "W";
     face_D := uniform_grid "Y";
     face_F := uniform_grid "R";
     face_B := uniform_grid "O";
     face_L := uniform_grid "B";
     face_R := uniform_grid "G" |}.

(** ** Methods as state-and-exception computations *)

Inductive exn : Type := IndexError.

Inductive outcome (A : Type) : Type :=
| Ok (a : A)
| Raise (e : exn).
Arguments Ok {A} a.
Arguments Raise {A} e.

(** A method body: it reads and writes the object and either returns a
    value or raises; the writes made before a raise stay. *)
Definition M (A : Type) : Type := RubiksCube -> outcome A * RubiksCube.

Definition ret {A} (a : A) : M A := fun c => (Ok a, c).

Definition raise {A} (e : exn) : M A := fun c => (Raise e, c).

Definition bind {A B} (m : M A) (k : A -> M B) : M B :=
  fun c =>
    match m c with
    | (Ok a, c') => k a c'
    | (Raise e, c') => (Raise e, c')
    end.

Declare Scope py_scope.
Delimit Scope py_scope with py.
Notation "x <- m ;; k" := (bind m (fun x => k))
  (at level 100, m at next level, right associativity) : py_scope.
Notation "m ;; k" := (bind m (fun _ => k))
  (at level 100, right associativity) : py_scope.
Local Open Scope py_scope.

(** [for x in xs: body(x)]. *)
Fixpoint for_each {A} (xs : list A) (body : A -> M unit) : M unit :=
  match xs with
  | [] => ret tt
  | x :: xs' => body x ;; for_each xs' body
  end.

(** [[e(x) for x in xs]]. *)
Fixpoint comprehension {A B} (xs : list A) (e : A -> M B) : M (list B) :=
  match xs with
  | [] => ret []
  | x :: xs' => y <- e x ;; ys <- comprehension xs' e ;; ret (y :: ys)
  end.

(** [range(n)]. *)
Definition range (n : nat) : list nat := seq 0 n.

(** [xs[i]] for a list, with a non-negative index. *)
Definition item {A} (xs : list A) (i : nat) : M A :=
  match xs !! i with
  | Some x => ret x
  | None => raise IndexError
  end.

(** [self.faces[k][i][:]]. *)
Definition get_row (k : face_key) (i : nat) : M row :=
  fun c => item (faces c k) i c.

(** [self.faces[k][i][j]]. *)
Definition get_cell (k : face_key) (i j : nat) : M ascii :=
  r <- get_row k i ;; item r j.

(** [self.faces[k] = g]. *)
Definition set_face (k : face_key) (g : grid) : M unit :=
  fun c => (Ok tt, store_face c k g).

(** [self.faces[k][i] = r]. *)
Definition set_row (k : face_key) (i : nat) (r : row) : M unit :=
  fun c =>
    if decide (i < length (faces c k))
    then (Ok tt, store_face c k (<[i := r]> (faces c k)))
    else (Raise IndexError, c).

(** [self.faces[k][i][j] = x]. *)
Definition set_cell (k : face_key) (i j : nat) (x : ascii) : M unit :=
  r <- get_row k i ;;
  if decide (j < length r) then set_row k i (<[j := x]> r) else raise IndexError.

(** [RubiksCube.rotate_face_clockwise]. *)
Definition rotate_face_clockwise (face : face_key) : M unit :=
  g <- comprehension (range 3) (fun i =>
         comprehension (range 3) (fun j => get_cell face (2 - j) i)) ;;
  set_face face g.

(** [RubiksCube.rotate_face_counterclockwise]. *)
Definition rotate_face_counterclockwise (face : face_key) : M unit :=
  for_each (range 3) (fun _ => rotate_face_clockwise face).

(** [RubiksCube.move_R]. *)
Definition move_R : M unit :=
  rotate_face_clockwise R ;;
  temp <- comprehension (range 3) (fun i => get_cell U i 2) ;;
  for_each (range 3) (fun i =>
    x <- get_cell F i 2 ;; set_cell U i 2 x ;;
    x <- get_cell D i 2 ;; set_cell F i 2 x ;;
    x <- get_cell B (2 - i) 0 ;; set_cell D i 2 x ;;
    x <- item temp i ;; set_cell B (2 - i) 0 x).

(** [RubiksCube.move_R_prime]. *)
Definition move_R_prime : M unit :=
  for_each (range 3) (fun _ => move_R).

(** [RubiksCube.move_U]. *)
Definition move_U : M unit :=
  rotate_face_clockwise U ;;
  temp <- get_row F 0 ;;
  r <- get_row R 0 ;; set_row F 0 r ;;
  r <- get_row B 0 ;; set_row R 0 r ;;
  r <- get_row L 0 ;; set_row B 0 r ;;
  set_row L 0 temp.

(** [RubiksCube.move_U_prime]. *)
Definition move_U_prime : M unit :=
  for_each (range 3) (fun _ => move_U).

(** [RubiksCube.move_F]. *)
Definition move_F : M unit :=
  rotate_face_clockwise F ;;
  temp <- get_row U 2 ;;
  for_each (range 3) (fun i =>
    x <- get_cell L (2 - i) 2 ;; set_cell U 2 i x ;;
    x <- get_cell D 0 (2 - i) ;; set_cell L (2 - i) 2 x ;;
    x <- get_cell R i 0 ;; set_cell D 0 (2 - i) x ;;
    x <- item temp i ;; set_cell R i 0 x).

(** [RubiksCube.move_F_prime]. *)
Definition move_F_prime : M unit :=
  for_each (range 3) (fun _ => move_F).

(** [RubiksCube.move_L]. *)
Definition move_L : M unit :=
  rotate_face_clockwise L ;;
  temp <- comprehension (range 3) (fun i => get_cell U i 0) ;;
  for_each (range 3) (fun i =>
    x <- get_cell B (2 - i) 2 ;; set_cell U i 0 x ;;
    x <- get_cell D i 0 ;; set_cell B (2 - i) 2 x ;;
    x <- get_cell F i 0 ;; set_cell D i 0 x ;;
    x <- item temp i ;; set_cell F i 0 x).

(** [RubiksCube.move_L_prime]. *)
Definition move_L_prime : M unit :=
  for_each (range 3) (fun _ => move_L).

(** [RubiksCube.move_D]. *)
Definition move_D : M unit :=
  rotate_face_clockwise D ;;
  temp <- get_row F 2 ;;
  r <- get_row L 2 ;; set_row F 2 r ;;
  r <- get_row B 2 ;; set_row L 2 r ;;
  r <- get_row R 2 ;; set_row B 2 r ;;
  set_row R 2 temp.

(** [RubiksCube.move_D_prime]. *)
Definition move_D_prime : M unit :=
  for_each (range 3) (fun _ => move_D).

(** [RubiksCube.move_B]. *)
Definition move_B : M unit :=
  rotate_face_clockwise B ;;
  temp <- get_row U 0 ;;
  for_each (range 3) (fun i =>
    x <- get_cell R i 2 ;; set_cell U 0 i x ;;
    x <- get_cell D 2 (2 - i) ;; set_cell R i 2 x ;;
    x <- get_cell L (2 - i) 0 ;; set_cell D 2 (2 - i) x ;;
    x <- item temp i ;; set_cell L (2 - i) 0 x).

(** [RubiksCube.move_B_prime]. *)
Definition move_B_prime : M unit :=
  for_each (range 3) (fun _ => move_B).

(** The dictionary [move_map] of [execute_move], in the order it is
    written.  A double move is a lambda that calls the clockwise method
    twice and returns the list of the two results. *)
Definition move_map : list (string * M unit) :=
  [ ("R"%string, move_R); ("R'"%string, move_R_prime);
    ("U"%string, move_U); ("U'"%string, move_U_prime);
    ("F"%string, move_F); ("F'"%string, move_F_prime);
    ("L"%string, move_L); ("L'"%string, move_L_prime);
    ("D"%string, move_D); ("D'"%string, move_D_prime);
    ("B"%string, move_B); ("B'"%string, move_B_prime);
    ("R2"%string, (move_R ;; move_R));
    ("U2"%string, (move_U ;; move_U));
    ("F2"%string, (move_F ;; move_F));
    ("L2"%string, (move_L ;; move_L));
    ("D2"%string, (move_D ;; move_D));
    ("B2"%string, (move_B ;; move_B)) ].

(** [d.get(key)] on a dictionary given by its items. *)
Fixpoint dict_get {V} (d : list (string * V)) (key : string) : option V :=
  match d with
  | [] => None
  | (k, v) :: d' => if String.eqb key k then Some v else dict_get d' key
  end.

(** [RubiksCube.execute_move]: a key of [move_map] runs its entry, any other
    string does nothing. *)
Definition execute_move (move : string) : M unit :=
  match dict_get move_map move with
  | Some f => f
  | None => ret tt
  end.

(** The replay loop of [main] and the loop of [scramble] once its random
    draws are fixed: [for move in moves: cube.execute_move(move)]. *)
Definition execute_moves (moves : list string) : M unit :=
  for_each moves execute_move.

(** ** Encodings *)

(** [RubiksCube.get_face_string]: the rows joined, then the joined rows
    joined.  It indexes nothing, so it cannot raise. *)
Definition get_face_string (c : RubiksCube) (face : face_key) : string :=
  string_of_list_ascii (concat (faces c face)).

(** [KOCIEMBA_COLOR_MAP], by its items. *)
Definition KOCIEMBA_COLOR_MAP : list (ascii * ascii) :=
  [ ("W", "U"); ("R", "R"); ("G", "F"); ("Y", "D"); ("O", "L"); ("B", "B") ].

(** [KOCIEMBA_COLOR_MAP.get(color, color)]. *)
Fixpoint get_or_default (d : list (ascii * ascii)) (key default : ascii) : ascii :=
  match d with
  | [] => default
  | (k, v) :: d' => if Ascii.eqb key k then v else get_or_default d' key default
  end.

(** [s += x] for a string [s] and a one-character string [x]. *)
Definition append_char (s : string) (x : ascii) : string :=
  (s ++ String x EmptyString)%string.

(** [face_order] of [get_kociemba_string]. *)
Definition face_order : list face_key := [U; R; F; D; L; B].

(** [RubiksCube.get_kociemba_string].  The module-level flag
    [KOCIEMBA_AVAILABLE], set by the guarded import, is an argument. *)
Definition get_kociemba_string (KOCIEMBA_AVAILABLE : bool) (c : RubiksCube)
  : option string :=
  if negb KOCIEMBA_AVAILABLE then None
  else
    Some (fold_left
            (fun kociemba_string face =>
               fold_left
                 (fun kociemba_string color =>
                    append_char kociemba_string
                      (get_or_default KOCIEMBA_COLOR_MAP color color))
                 (list_ascii_of_string (get_face_string c face))
                 kociemba_string)
            face_order EmptyString).

(** [s[i]] for a string, with a non-negative index. *)
Definition str_item (s : string) (i : nat) : M ascii :=
  match String.get i s with
  | Some x => ret x
  | None => raise IndexError
  end.

(** [RubiksCube.set_face_from_string].  The right-hand side
    [face_string[i * 3 + j]] is evaluated before the cell is assigned. *)
Definition set_face_from_string (face : face_key) (face_string : string) : M unit :=
  for_each (range 3) (fun i =>
    for_each (range 3) (fun j =>
      x <- str_item face_string (i * 3 + j) ;;
      set_cell face i j x)).

(** ** The solved predicate *)

(** [solved_faces] of [is_solved], by its items. *)
Definition solved_faces : list (face_key * ascii) :=
  [ (U, "W"); (D, "Y"); (F, "R"); (B, "O"); (L, "B"); (R, "G") ].

(** [RubiksCube.is_solved]: the three nested loops return [False] at the
    first cell that differs and [True] when none does. *)
Definition is_solved (c : RubiksCube) : bool :=
  forallb (fun '(face, expected_color) =>
    forallb (fun r : row =>
      forallb (fun cell => Ascii.eqb cell expected_color) r)
      (faces c face))
    solved_faces.

(** ** Manual input: the "Update Cube" handler of [main] *)

(** [ch.upper()] on the ASCII range; a byte outside [a..z] is unchanged.
    (Python also maps letters beyond ASCII; none of them maps into
    [WYROBG], so validation does not tell the difference.) *)
Definition upper (ch : ascii) : ascii :=
  let n := nat_of_ascii ch in
  if ((97 <=? n) && (n <=? 122))%nat then ascii_of_nat (n - 32) else ch.

(** [s.upper()]. *)
Fixpoint str_upper (s : string) : string :=
  match s with
  | EmptyString => EmptyString
  | String ch s' => String (upper ch) (str_upper s')
  end.

(** [valid_colors = set('WYROBG')]. *)
Definition valid_colors : list ascii := ["W"; "Y"; "R"; "O"; "B"; "G"].

(** [x in valid_colors]. *)
Definition in_valid_colors (x : ascii) : bool :=
  existsb (Ascii.eqb x) valid_colors.

(** [all(c.upper() in valid_colors for c in face_input)]. *)
Definition all_valid_colors (face_input : string) : bool :=
  forallb (fun ch => in_valid_colors (upper ch)) (list_ascii_of_string face_input).

(** What the handler shows to the user. *)
Inductive message : Type :=
| must_have_9_characters (face : face_key)
| contains_invalid_colors (face : face_key)
| cube_updated
| error_updating_cube (e : exn).

(** The validation loop: it visits every face and clears [all_valid] at
    each face that fails, reporting it. *)
Fixpoint validate (face_inputs : list (face_key * string)) (all_valid : bool)
  : bool * list message :=
  match face_inputs with
  | [] => (all_valid, [])
  | (face_key, face_input) :: rest =>
      if negb (String.length face_input =? 9)%nat then
        let '(v, msgs) := validate rest false in
        (v, must_have_9_characters face_key :: msgs)
      else if negb (all_valid_colors face_input) then
        let '(v, msgs) := validate rest false in
        (v, contains_invalid_colors face_key :: msgs)
      else validate rest all_valid
  end.

(** The body of [if st.button("Update Cube")], on the cube of the session:
    validate the six inputs, and only if all passed store each one in upper
    case.  The [try ... except Exception] around it reports a raised
    exception instead of propagating it. *)
Definition update_cube (face_inputs : list (face_key * string)) (c : RubiksCube)
  : list message * RubiksCube :=
  let '(all_valid, msgs) := validate face_inputs true in
  if all_valid then
    match for_each face_inputs (fun '(face_key, face_input) =>
            set_face_from_string face_key (str_upper face_input)) c with
    | (Ok _, c') => (msgs ++ [cube_updated], c')
    | (Raise e, c') => (msgs ++ [error_updating_cube e], c')
    end
  else (msgs, c).

(** [face_inputs] is filled in the order of the keys of [face_names]. *)
Definition face_inputs_of (sU sD sF sB sL sR : string) : list (face_key * string) :=
  [ (U, sU); (D, sD); (F, sF); (B, sB); (L, sL); (R, sR) ].

(** ** Well-formed states *)

(** Every face is three rows of three cells: what [__init__] builds and
    every method keeps. *)
Definition wf_grid (g : grid) : Prop :=
  length g = 3 /\ Forall (fun r : row => length r = 3) g.

Definition wf_cube (c : RubiksCube) : Prop :=
  forall k, wf_grid (faces c k).

(** [self.faces[k][i][j]] as a partial function of the state. *)
Definition cell (c : RubiksCube) (k : face_key) (i j : nat) : option ascii :=
  match faces c k !! i with
  | Some r => r !! j
  | None => None
  end.

(** The 54 cells, face by face. *)
Definition cells (c : RubiksCube) : list ascii :=
  concat (map (fun k => concat (faces c k)) [U; D; F; B; L; R]).

(** How many cells hold [x]. *)
Definition color_count (x : ascii) (c : RubiksCube) : nat :=
  count_occ ascii_dec (cells c) x.

(** ** Move tokens *)

(** The clockwise token of a face, and the two suffixed ones, as listed in
    [scramble] and in [move_map]. *)
Definition clockwise (k : face_key) : string :=
  match k with
  | U => "U" | D => "D" | F => "F" | B => "B" | L => "L" | R => "R"
  end.

Definition counterclockwise (k : face_key) : string := (clockwise k ++ "'")%string.

Definition double (k : face_key) : string := (clockwise k ++ "2")%string.

(** The list [moves] of [scramble]: the 18 recognised tokens. *)
Definition moves : list string :=
  [ "R"; "R'"; "R2"; "U"; "U'"; "U2"; "F"; "F'"; "F2";
    "L"; "L'"; "L2"; "D"; "D'"; "D2"; "B"; "B'"; "B2" ]%string.

(** Run a method [n] times in a row. *)
Fixpoint times (n : nat) (m : M unit) : M unit :=
  match n with
  | 0 => ret tt
  | S n' => m ;; times n' m
  end.

(** ** Notions used in the statements *)

(** The centre cell of a face. *)
Definition center (c : RubiksCube) (k : face_key) : option ascii := cell c k 1 1.

(** [c'] is well formed, holds the cells of [c] in another order, and has
    the centres of [c]. *)
Definition rearranged (c c' : RubiksCube) : Prop :=
  wf_cube c' /\ Permutation (cells c') (cells c) /\
  forall k, center c' k = center c k.

(** A method that, on a well-formed state, returns normally and only
    rearranges the cells. *)
Definition rearranges (m : M unit) : Prop :=
  forall c, wf_cube c -> exists c', m c = (Ok tt, c') /\ rearranged c c'.

(** The translation [get_kociemba_string] applies to each character. *)
Definition kociemba_letter (x : ascii) : ascii :=
  get_or_default KOCIEMBA_COLOR_MAP x x.

(** The condition of the specification on one input string: nine
    characters, each a colour letter in either case. *)
Definition passes_validation (s : string) : Prop :=
  String.length s = 9 /\
  Forall (fun ch => In ch ["W"; "Y"; "R"; "O"; "B"; "G";
                           "w"; "y"; "r"; "o"; "b"; "g"])
         (list_ascii_of_string s).

(** The test the handler makes on one input string. *)
Definition accepts (s : string) : bool :=
  (String.length s =? 9)%nat && all_valid_colors s.

(** ** The rest of the module *)

(** [d[key] = v] on a dictionary given by its items: an existing key keeps
    its place and takes the new value, a new key goes to the end. *)
Fixpoint char_dict_set (d : list (ascii * ascii)) (key v : ascii)
  : list (ascii * ascii) :=
  match d with
  | [] => [(key, v)]
  | (k, w) :: d' =>
      if Ascii.eqb key k then (k, v) :: d' else (k, w) :: char_dict_set d' key v
  end.

(** [d.get(key)] for a dictionary keyed by characters. *)
Fixpoint char_dict_get (d : list (ascii * ascii)) (key : ascii) : option ascii :=
  match d with
  | [] => None
  | (k, v) :: d' => if Ascii.eqb key k then Some v else char_dict_get d' key
  end.

(** [REVERSE_KOCIEMBA_MAP = {v: k for k, v in KOCIEMBA_COLOR_MAP.items()}]. *)
Definition REVERSE_KOCIEMBA_MAP : list (ascii * ascii) :=
  fold_left (fun d '(k, v) => char_dict_set d v k) KOCIEMBA_COLOR_MAP [].

(** [random.choice(xs)] once the generator's draw, an index below
    [len(xs)], is given. *)
Definition random_choice {A} (xs : list A) (draw : nat) : M A := item xs draw.

(** The loop of [scramble]: one iteration per draw. *)
Fixpoint scramble_loop (draws : list nat) (scramble_moves : list string)
  : M (list string) :=
  match draws with
  | [] => ret scramble_moves
  | draw :: rest =>
      move <- random_choice moves draw ;;
      let scramble_moves := scramble_moves ++ [move] in
      execute_move move ;;
      scramble_loop rest scramble_moves
  end.

(** [RubiksCube.scramble], with [num_moves] the number of draws. *)
Definition scramble (draws : list nat) : M (list string) :=
  scramble_loop draws [].

(** [solving_moves] of [simple_solve]. *)
Definition solving_moves : list string :=
  [ "R"; "U"; "R'"; "U'"; "R"; "U"; "R'"; "U'";
    "F"; "R"; "U'"; "R'"; "F'" ]%string.

(** [RubiksCube.simple_solve], with [n] the value of
    [random.randint(8, 15)]; a slice bound past the end stops at the end. *)
Definition simple_solve (n : nat) : list string := take n solving_moves.

(** The token that turns the same face the other way: the entry of a
    clockwise token is its primed one and conversely, a double token is its
    own; any other string is left as it is. *)
Definition undo_token (move : string) : string :=
  match dict_get
          [ ("R", "R'"); ("R'", "R"); ("R2", "R2");
            ("U", "U'"); ("U'", "U"); ("U2", "U2");
            ("F", "F'"); ("F'", "F"); ("F2", "F2");
            ("L", "L'"); ("L'", "L"); ("L2", "L2");
            ("D", "D'"); ("D'", "D"); ("D2", "D2");
            ("B", "B'"); ("B'", "B"); ("B2", "B2") ]%string move with
  | Some m => m
  | None => move
  end.

(** The six face strings in the order of [face_order], end to end. *)
Definition facelets (c : RubiksCube) : list ascii :=
  concat (map (fun k => concat (faces c k)) face_order).

(** * Properties *)

(** ** Well-formed states, cell by cell *)

Lemma wf_row_inv (r : row) :
  length r = 3 -> exists x0 x1 x2, r = [x0; x1; x2].
Proof.
  destruct r as [|x0 [|x1 [|x2 [|? ?]]]]; simpl; try discriminate.
  intros _. eauto.
Qed.

Lemma wf_grid_inv (g : grid) :
  wf_grid g ->
  exists x00 x01 x02 x10 x11 x12 x20 x21 x22,
    g = [[x00; x01; x02]; [x10; x11; x12]; [x20; x21; x22]].
Proof.
  intros [Hlen Hrows].
  destruct g as [|r0 [|r1 [|r2 [|? ?]]]]; simpl in Hlen; try discriminate.
  inversion_clear Hrows as [|? ? H0 Hrows1].
  inversion_clear Hrows1 as [|? ? H1 Hrows2].
  inversion_clear Hrows2 as [|? ? H2 _].
  destruct (wf_row_inv _ H0) as (? & ? & ? & ->).
  destruct (wf_row_inv _ H1) as (? & ? & ? & ->).
  destruct (wf_row_inv _ H2) as (? & ? & ? & ->).
  do 9 eexists. reflexivity.
Qed.

Lemma wf_grid_intro (x00 x01 x02 x10 x11 x12 x20 x21 x22 : ascii) :
  wf_grid [[x00; x01; x02]; [x10; x11; x12]; [x20; x21; x22]].
Proof. split; [reflexivity | repeat constructor]. Qed.

(** Name the 54 cells of a well-formed state. *)
Ltac name_cells c H :=
  let HU := fresh in let HD := fresh in let HF := fresh in
  let HB := fresh in let HL := fresh in let HR := fresh in
  pose proof (H U) as HU; pose proof (H D) as HD; pose proof (H F) as HF;
  pose proof (H B) as HB; pose proof (H L) as HL; pose proof (H R) as HR;
  clear H; destruct c as [gU gD gF gB gL gR]; simpl in HU, HD, HF, HB, HL, HR;
  destruct (wf_grid_inv _ HU) as (? & ? & ? & ? & ? & ? & ? & ? & ? & ->); clear HU;
  destruct (wf_grid_inv _ HD) as (? & ? & ? & ? & ? & ? & ? & ? & ? & ->); clear HD;
  destruct (wf_grid_inv _ HF) as (? & ? & ? & ? & ? & ? & ? & ? & ? & ->); clear HF;
  destruct (wf_grid_inv _ HB) as (? & ? & ? & ? & ? & ? & ? & ? & ? & ->); clear HB;
  destruct (wf_grid_inv _ HL) as (? & ? & ? & ? & ? & ? & ? & ? & ? & ->); clear HL;
  destruct (wf_grid_inv _ HR) as (? & ? & ? & ? & ? & ? & ? & ? & ? & ->); clear HR.

Lemma wf_cube_intro (gU gD gF gB gL gR : grid) :
  wf_grid gU -> wf_grid gD -> wf_grid gF ->
  wf_grid gB -> wf_grid gL -> wf_grid gR ->
  wf_cube (mkCube gU gD gF gB gL gR).
Proof. intros ? ? ? ? ? ? []; assumption. Qed.

Lemma wf_init : wf_cube init.
Proof. intros []; apply wf_grid_intro. Qed.

(** ** Inverse and order laws *)

(** C1: on every well-formed state and for every face, the clockwise token
    followed by the counter-clockwise token, and the counter-clockwise token
    followed by the clockwise one, both end without error in the state they
    started from; and the counter-clockwise token does exactly what three
    clockwise tokens in a row do. *)
Theorem inverse_law (k : face_key) (c : RubiksCube) :
  wf_cube c ->
  execute_moves [clockwise k; counterclockwise k] c = (Ok tt, c) /\
  execute_moves [counterclockwise k; clockwise k] c = (Ok tt, c) /\
  execute_move (counterclockwise k) c = times 3 (execute_move (clockwise k)) c.
Proof.
  intros H. name_cells c H.
  destruct k; (split; [|split]); vm_compute; reflexivity.
Qed.

Lemma inverse_law_witness :
  execute_moves [clockwise F; counterclockwise F] init = (Ok tt, init) /\
  execute_moves [counterclockwise F; clockwise F] init = (Ok tt, init) /\
  execute_move (counterclockwise F) init = times 3 (execute_move (clockwise F)) init.
Proof. apply (inverse_law F init). apply wf_init. Defined.

(** C2: on every well-formed state and for every face, four clockwise
    tokens in a row end in the starting state, the double token does
    exactly what two clockwise tokens do, and two double tokens in a row end
    in the starting state. *)
Theorem order_four_law (k : face_key) (c : RubiksCube) :
  wf_cube c ->
  times 4 (execute_move (clockwise k)) c = (Ok tt, c) /\
  execute_move (double k) c = times 2 (execute_move (clockwise k)) c /\
  times 2 (execute_move (double k)) c = (Ok tt, c).
Proof.
  intros H. name_cells c H.
  destruct k; (split; [|split]); vm_compute; reflexivity.
Qed.

Lemma order_four_law_witness :
  times 4 (execute_move (clockwise U)) init = (Ok tt, init) /\
  execute_move (double U) init = times 2 (execute_move (clockwise U)) init /\
  times 2 (execute_move (double U)) init = (Ok tt, init).
Proof. apply (order_four_law U init). apply wf_init. Defined.

(** C3: from the solved state, [R U R' U'] leaves a state that is not the
    solved one and that [is_solved] rejects; the same four tokens six times
    over (24 moves) end in the solved state. *)
Theorem sexy_move_order_six :
  let seq4 := ["R"; "U"; "R'"; "U'"]%string in
  (exists c, execute_moves seq4 init = (Ok tt, c) /\ c <> init /\ is_solved c = false) /\
  execute_moves (seq4 ++ seq4 ++ seq4 ++ seq4 ++ seq4 ++ seq4) init = (Ok tt, init) /\
  is_solved init = true.
Proof.
  split; [|split; vm_compute; reflexivity].
  eexists. split; [vm_compute; reflexivity|].
  split; [discriminate | vm_compute; reflexivity].
Qed.

(** ** What every move keeps *)

Lemma rearranged_refl (c : RubiksCube) : wf_cube c -> rearranged c c.
Proof. intros H. split; [assumption | split; [reflexivity | reflexivity]]. Qed.

Lemma rearranged_trans (c1 c2 c3 : RubiksCube) :
  rearranged c1 c2 -> rearranged c2 c3 -> rearranged c1 c3.
Proof.
  intros (_ & P12 & C12) (W3 & P23 & C23).
  split; [assumption | split].
  - now rewrite P23.
  - intros k. now rewrite C23.
Qed.

Lemma rearranges_ret : rearranges (ret tt).
Proof. intros c H. exists c. split; [reflexivity | now apply rearranged_refl]. Qed.

Lemma rearranges_seq (m1 m2 : M unit) :
  rearranges m1 -> rearranges m2 -> rearranges (m1 ;; m2).
Proof.
  intros H1 H2 c Hc.
  destruct (H1 c Hc) as (c1 & E1 & R1).
  destruct (H2 c1 (proj1 R1)) as (c2 & E2 & R2).
  exists c2. split.
  - unfold bind. now rewrite E1.
  - eapply rearranged_trans; eassumption.
Qed.

Lemma rearranges_for_each {A} (xs : list A) (body : A -> M unit) :
  (forall x, rearranges (body x)) -> rearranges (for_each xs body).
Proof.
  intros Hbody. induction xs as [|x xs IH]; simpl.
  - apply rearranges_ret.
  - apply rearranges_seq; [apply Hbody | exact IH].
Qed.

(** The six clockwise methods, each by running it on the 54 named cells. *)
Ltac run_on_named_cells :=
  let c := fresh "c" in let H := fresh "H" in
  intros c H; name_cells c H;
  eexists; split; [vm_compute; reflexivity|];
  split; [apply wf_cube_intro; apply wf_grid_intro|];
  split; [cbn; solve_Permutation | intros []; reflexivity].

Lemma rearranges_move_R : rearranges move_R.
Proof. run_on_named_cells. Qed.

Lemma rearranges_move_U : rearranges move_U.
Proof. run_on_named_cells. Qed.

Lemma rearranges_move_F : rearranges move_F.
Proof. run_on_named_cells. Qed.

Lemma rearranges_move_L : rearranges move_L.
Proof. run_on_named_cells. Qed.

Lemma rearranges_move_D : rearranges move_D.
Proof. run_on_named_cells. Qed.

Lemma rearranges_move_B : rearranges move_B.
Proof. run_on_named_cells. Qed.

Lemma rearranges_rotate_face_clockwise (k : face_key) :
  rearranges (rotate_face_clockwise k).
Proof. destruct k; run_on_named_cells. Qed.

Lemma dict_get_In {V} (d : list (string * V)) (key : string) (v : V) :
  dict_get d key = Some v -> In (key, v) d.
Proof.
  induction d as [|[k w] d IH]; simpl; [discriminate|].
  destruct (String.eqb_spec key k) as [->|_].
  - intros [= ->]. now left.
  - intros H. right. now apply IH.
Qed.

Create HintDb cube discriminated.
#[local] Hint Resolve rearranges_ret rearranges_seq rearranges_for_each
  rearranges_move_R rearranges_move_U rearranges_move_F
  rearranges_move_L rearranges_move_D rearranges_move_B : cube.

(** Every entry of [move_map] is a clockwise method, run once, twice or
    three times; any other string runs nothing. *)
Lemma rearranges_execute_move (move : string) : rearranges (execute_move move).
Proof.
  unfold execute_move.
  destruct (dict_get move_map move) as [f|] eqn:E; [|auto with cube].
  apply dict_get_In in E. unfold move_map in E. simpl in E.
  repeat (destruct E as [E|E];
          [injection E as _ <-;
           unfold move_R_prime, move_U_prime, move_F_prime,
                  move_L_prime, move_D_prime, move_B_prime;
           auto with cube|]).
  destruct E.
Qed.

Lemma rearranges_execute_moves (ms : list string) : rearranges (execute_moves ms).
Proof. apply rearranges_for_each. apply rearranges_execute_move. Qed.

(** The keys of [move_map] are the tokens listed in [scramble]. *)
Lemma move_map_keys (move : string) :
  In move moves <-> exists f, dict_get move_map move = Some f.
Proof.
  split.
  - intros H. unfold moves in H. simpl in H.
    repeat (destruct H as [<-|H]; [eexists; reflexivity|]). destruct H.
  - intros [f E]. apply dict_get_In in E. unfold move_map in E. simpl in E.
    repeat (destruct E as [E|E]; [injection E as <- _; unfold moves; simpl; tauto|]).
    destruct E.
Qed.

(** ** Colour counts and centres *)

Lemma rearranged_color_count (c c' : RubiksCube) (x : ascii) :
  rearranged c c' -> color_count x c' = color_count x c.
Proof. intros (_ & P & _). unfold color_count. now apply Permutation_count_occ. Qed.

(** C4: from the solved state, every sequence of the 18 tokens runs to the
    end without error, and in the state it reaches each of the six colours
    fills exactly 9 of the 54 cells. *)
Theorem color_count_invariant (ms : list string) :
  Forall (fun m => In m moves) ms ->
  exists c, execute_moves ms init = (Ok tt, c) /\
    length (cells c) = 54 /\
    color_count "W" c = 9 /\ color_count "Y" c = 9 /\ color_count "R" c = 9 /\
    color_count "O" c = 9 /\ color_count "B" c = 9 /\ color_count "G" c = 9.
Proof.
  intros _.
  destruct (rearranges_execute_moves ms init wf_init) as (c & E & Hc).
  exists c. split; [exact E|]. split.
  - destruct Hc as (_ & P & _). now rewrite (Permutation_length P).
  - rewrite !(rearranged_color_count init c) by exact Hc.
    repeat split; reflexivity.
Qed.

Lemma color_count_invariant_witness :
  exists c, execute_moves ["R"; "U2"; "F'"; "B"; "L2"; "D'"]%string init = (Ok tt, c) /\
    length (cells c) = 54 /\
    color_count "W" c = 9 /\ color_count "Y" c = 9 /\ color_count "R" c = 9 /\
    color_count "O" c = 9 /\ color_count "B" c = 9 /\ color_count "G" c = 9.
Proof.
  apply (color_count_invariant ["R"; "U2"; "F'"; "B"; "L2"; "D'"]%string).
  repeat (apply List.Forall_cons; [unfold moves; simpl; tauto|]). apply List.Forall_nil.
Defined.

(** C8: a string that is none of the 18 tokens leaves every state, well
    formed or not, exactly as it was, and raises nothing. *)
Theorem unrecognized_move_is_noop (move : string) (c : RubiksCube) :
  ~ In move moves -> execute_move move c = (Ok tt, c).
Proof.
  intros Hout. unfold execute_move.
  destruct (dict_get move_map move) as [f|] eqn:E; [|reflexivity].
  exfalso. apply Hout. apply move_map_keys. now exists f.
Qed.

Lemma unrecognized_move_is_noop_witness :
  execute_move "X"%string init = (Ok tt, init) /\
  execute_move "r"%string init = (Ok tt, init) /\
  execute_move "R3"%string init = (Ok tt, init).
Proof.
  split; [|split]; apply unrecognized_move_is_noop; unfold moves; simpl;
    intros H; repeat (destruct H as [H|H]; [discriminate H|]); exact H.
Defined.

(** C10: on a well-formed state the self-rotation of a face and each of the
    18 tokens return normally and leave the centre of every face as it was;
    so every state reached from the solved one by such tokens has the
    centres Up = W, Down = Y, Front = R, Back = O, Left = B, Right = G. *)
Theorem centers_fixed (k : face_key) (move : string) (ms : list string) (c : RubiksCube) :
  wf_cube c -> In move moves -> Forall (fun m => In m moves) ms ->
  (exists c', rotate_face_clockwise k c = (Ok tt, c') /\
     forall k', center c' k' = center c k') /\
  (exists c', execute_move move c = (Ok tt, c') /\
     forall k', center c' k' = center c k') /\
  (exists c', execute_moves ms init = (Ok tt, c') /\
     center c' U = Some "W" /\ center c' D = Some "Y" /\
     center c' F = Some "R" /\ center c' B = Some "O" /\
     center c' L = Some "B" /\ center c' R = Some "G").
Proof.
  intros Hc _ _. split; [|split].
  - destruct (rearranges_rotate_face_clockwise k c Hc) as (c' & E & _ & _ & C).
    now exists c'.
  - destruct (rearranges_execute_move move c Hc) as (c' & E & _ & _ & C).
    now exists c'.
  - destruct (rearranges_execute_moves ms init wf_init) as (c' & E & _ & _ & C).
    exists c'. split; [exact E|]. rewrite !C. repeat split; reflexivity.
Qed.

Lemma centers_fixed_witness :
  (exists c', rotate_face_clockwise F init = (Ok tt, c') /\
     forall k', center c' k' = center init k') /\
  (exists c', execute_move "B'"%string init = (Ok tt, c') /\
     forall k', center c' k' = center init k') /\
  (exists c', execute_moves ["F"; "R2"; "U'"]%string init = (Ok tt, c') /\
     center c' U = Some "W" /\ center c' D = Some "Y" /\
     center c' F = Some "R" /\ center c' B = Some "O" /\
     center c' L = Some "B" /\ center c' R = Some "G").
Proof.
  apply (centers_fixed F "B'"%string ["F"; "R2"; "U'"]%string init).
  - apply wf_init.
  - unfold moves; simpl; tauto.
  - repeat (apply List.Forall_cons; [unfold moves; simpl; tauto|]). apply List.Forall_nil.
Defined.

(** ** The solved predicate *)

Lemma all_cells_eq (g : grid) (x : ascii) :
  forallb (fun r : row => forallb (fun cell => Ascii.eqb cell x) r) g = true <->
  (forall r y, In r g -> In y r -> y = x).
Proof.
  rewrite forallb_forall. split.
  - intros H r y Hr Hy. specialize (H r Hr). rewrite forallb_forall in H.
    apply Ascii.eqb_eq. now apply H.
  - intros H r Hr. apply forallb_forall. intros y Hy.
    apply Ascii.eqb_eq. now apply (H r).
Qed.

(** C6: [is_solved] answers [true] exactly when every cell of Up is W, of
    Down is Y, of Front is R, of Back is O, of Left is B and of Right is G;
    it answers [true] on a new cube and [false] after a single [R]. *)
Theorem is_solved_exact (c : RubiksCube) :
  (is_solved c = true <->
     (forall r x, In r (faces c U) -> In x r -> x = "W") /\
     (forall r x, In r (faces c D) -> In x r -> x = "Y") /\
     (forall r x, In r (faces c F) -> In x r -> x = "R") /\
     (forall r x, In r (faces c B) -> In x r -> x = "O") /\
     (forall r x, In r (faces c L) -> In x r -> x = "B") /\
     (forall r x, In r (faces c R) -> In x r -> x = "G")) /\
  is_solved init = true /\
  (exists c', execute_move "R"%string init = (Ok tt, c') /\ is_solved c' = false) /\
  (exists c', execute_moves ["R"; "R"; "R"; "R"]%string init = (Ok tt, c') /\
     is_solved c' = true).
Proof.
  split; [|split; [reflexivity | split; eexists; split; vm_compute; reflexivity]].
  unfold is_solved, solved_faces. cbn [forallb].
  rewrite !andb_true_iff, !all_cells_eq. tauto.
Qed.

(** ** The canonical encoding *)

Lemma kociemba_letter_other (x : ascii) :
  ~ In x ["W"; "R"; "G"; "Y"; "O"; "B"] -> kociemba_letter x = x.
Proof.
  intros Hx. unfold kociemba_letter, KOCIEMBA_COLOR_MAP. simpl.
  repeat match goal with
         | |- context [Ascii.eqb x ?y] =>
             destruct (Ascii.eqb_spec x y) as [->|_];
             [exfalso; apply Hx; simpl; tauto|]
         end.
  reflexivity.
Qed.

(** C5: with the solver available, the encoding of a well-formed state is a
    string of 54 characters; its character at position [9 n + 3 i + j] is
    the translation of cell [(i, j)] of the [n]-th face in the order Up,
    Right, Front, Down, Left, Back, which is also character [3 i + j] of
    that face's own string; the translation sends W to U, R to R, G to F,
    Y to D, O to L, B to B and every other character to itself. *)
Theorem kociemba_string_layout (c : RubiksCube) :
  wf_cube c ->
  exists s, get_kociemba_string true c = Some s /\
    String.length s = 54 /\
    (forall n k i j, [U; R; F; D; L; B] !! n = Some k -> i < 3 -> j < 3 ->
       exists x, cell c k i j = Some x /\
         String.get (3 * i + j) (get_face_string c k) = Some x /\
         String.get (9 * n + 3 * i + j) s = Some (kociemba_letter x)) /\
    kociemba_letter "W" = "U" /\ kociemba_letter "R" = "R" /\
    kociemba_letter "G" = "F" /\ kociemba_letter "Y" = "D" /\
    kociemba_letter "O" = "L" /\ kociemba_letter "B" = "B" /\
    (forall x, ~ In x ["W"; "R"; "G"; "Y"; "O"; "B"] -> kociemba_letter x = x).
Proof.
  intros H. name_cells c H.
  eexists. split; [reflexivity|].
  split; [vm_compute; reflexivity|].
  split.
  - intros n k i j Hn Hi Hj.
    destruct n as [|[|[|[|[|[|n]]]]]]; simpl in Hn; try discriminate Hn;
      injection Hn as <-;
      (destruct i as [|[|[|i]]]; [| | |lia]);
      (destruct j as [|[|[|j]]]; [| | |lia]);
      eexists; (split; [|split]); reflexivity.
  - repeat (split; [reflexivity|]). exact kociemba_letter_other.
Qed.

Lemma kociemba_string_layout_witness :
  exists s, get_kociemba_string true init = Some s /\
    String.length s = 54 /\
    (forall n k i j, [U; R; F; D; L; B] !! n = Some k -> i < 3 -> j < 3 ->
       exists x, cell init k i j = Some x /\
         String.get (3 * i + j) (get_face_string init k) = Some x /\
         String.get (9 * n + 3 * i + j) s = Some (kociemba_letter x)) /\
    kociemba_letter "W" = "U" /\ kociemba_letter "R" = "R" /\
    kociemba_letter "G" = "F" /\ kociemba_letter "Y" = "D" /\
    kociemba_letter "O" = "L" /\ kociemba_letter "B" = "B" /\
    (forall x, ~ In x ["W"; "R"; "G"; "Y"; "O"; "B"] -> kociemba_letter x = x).
Proof. apply (kociemba_string_layout init). apply wf_init. Defined.

(** ** Setting a face from a string *)

(** A string of ten characters is accepted: the first nine are stored and
    the tenth is ignored. *)
Lemma set_face_from_string_accepts_ten :
  String.length "YYYYYYYYYG" <> 9 /\
  set_face_from_string U "YYYYYYYYYG" init =
    (Ok tt, store_face init U (uniform_grid "Y")).
Proof. split; [discriminate | vm_compute; reflexivity]. Qed.

(** A string of eight characters raises [IndexError] only when the ninth
    cell is reached, the first eight being already overwritten. *)
Lemma set_face_from_string_eight :
  set_face_from_string U "YYYYYYYY" init =
    (Raise IndexError,
     store_face init U [["Y"; "Y"; "Y"]; ["Y"; "Y"; "Y"]; ["Y"; "Y"; "W"]]).
Proof. vm_compute; reflexivity. Qed.

(** C7, as the code has it: on a well-formed state [set_face_from_string]
    has no length check of its own.  A string of at least 9 characters is
    stored without error, its first nine characters filling the face in
    row-major order, whatever they are; a shorter string raises
    [IndexError] at the first missing character, the cells before it being
    already overwritten.  The other faces and the shape are untouched. *)
Theorem set_face_from_string_spec (face : face_key) (s : string) (c : RubiksCube) :
  wf_cube c ->
  exists r c', set_face_from_string face s c = (r, c') /\
    r = (if (9 <=? String.length s)%nat then Ok tt else Raise IndexError) /\
    wf_cube c' /\
    (forall k, k <> face -> faces c' k = faces c k) /\
    (forall i j, i < 3 -> j < 3 ->
       cell c' face i j =
         if (3 * i + j <? String.length s)%nat then String.get (3 * i + j) s
         else cell c face i j).
Proof.
  intros H. name_cells c H.
  do 9 (destruct s as [|? s];
        [destruct face; do 2 eexists;
         (split; [vm_compute; reflexivity|]);
         (split; [reflexivity|]);
         (split; [apply wf_cube_intro; apply wf_grid_intro|]);
         (split; [intros [] Hk; solve [reflexivity | contradiction]|]);
         intros i j Hi Hj;
         (destruct i as [|[|[|i]]]; [| | |lia]);
         (destruct j as [|[|[|j]]]; [| | |lia]);
         reflexivity|]).
  destruct face; do 2 eexists;
    (split; [vm_compute; reflexivity|]);
    (split; [reflexivity|]);
    (split; [apply wf_cube_intro; apply wf_grid_intro|]);
    (split; [intros [] Hk; solve [reflexivity | contradiction]|]);
    intros i j Hi Hj;
    (destruct i as [|[|[|i]]]; [| | |lia]);
    (destruct j as [|[|[|j]]]; [| | |lia]);
    reflexivity.
Qed.

Lemma set_face_from_string_spec_witness :
  exists r c', set_face_from_string L "GGGGWGGGG" init = (r, c') /\
    r = (if (9 <=? String.length "GGGGWGGGG")%nat then Ok tt else Raise IndexError) /\
    wf_cube c' /\
    (forall k, k <> L -> faces c' k = faces init k) /\
    (forall i j, i < 3 -> j < 3 ->
       cell c' L i j =
         if (3 * i + j <? String.length "GGGGWGGGG")%nat
         then String.get (3 * i + j) "GGGGWGGGG"
         else cell init L i j).
Proof. apply (set_face_from_string_spec L "GGGGWGGGG" init). apply wf_init. Defined.

(** ** Manual input *)

Lemma upper_in_valid_colors (ch : ascii) :
  in_valid_colors (upper ch) =
  existsb (Ascii.eqb ch) ["W"; "Y"; "R"; "O"; "B"; "G";
                          "w"; "y"; "r"; "o"; "b"; "g"].
Proof. destruct ch as [[] [] [] [] [] [] [] []]; vm_compute; reflexivity. Qed.

Lemma accepts_iff (s : string) : accepts s = true <-> passes_validation s.
Proof.
  unfold accepts, passes_validation, all_valid_colors.
  rewrite andb_true_iff, Nat.eqb_eq, forallb_forall, List.Forall_forall.
  split; intros [Hlen Hch]; (split; [exact Hlen|]); intros ch Hin;
    specialize (Hch ch Hin); rewrite upper_in_valid_colors in *.
  - apply existsb_exists in Hch. destruct Hch as (y & Hy & E).
    apply Ascii.eqb_eq in E. now subst.
  - apply existsb_exists. exists ch. split; [exact Hch | apply Ascii.eqb_refl].
Qed.

Lemma validate_fst (face_inputs : list (face_key * string)) (all_valid : bool) :
  fst (validate face_inputs all_valid) =
  all_valid && forallb (fun p => accepts (snd p)) face_inputs.
Proof.
  revert all_valid.
  induction face_inputs as [|[k s] rest IH]; intros all_valid; simpl.
  - now rewrite andb_true_r.
  - unfold accepts at 1.
    destruct (String.length s =? 9)%nat; simpl.
    + destruct (all_valid_colors s); simpl.
      * apply IH.
      * specialize (IH false). destruct (validate rest false).
        simpl in *. now rewrite andb_false_r.
    + specialize (IH false). destruct (validate rest false).
      simpl in *. now rewrite andb_false_r.
Qed.

Lemma validate_accepted (face_inputs : list (face_key * string)) (all_valid : bool) :
  forallb (fun p => accepts (snd p)) face_inputs = true ->
  validate face_inputs all_valid = (all_valid, []).
Proof.
  revert all_valid.
  induction face_inputs as [|[k s] rest IH]; intros all_valid; simpl.
  - reflexivity.
  - rewrite andb_true_iff. intros [Hs Hrest].
    unfold accepts in Hs. apply andb_true_iff in Hs. destruct Hs as [-> ->].
    simpl. now apply IH.
Qed.

Lemma str_upper_length (s : string) : String.length (str_upper s) = String.length s.
Proof. induction s as [|ch s IH]; simpl; [reflexivity | now rewrite IH]. Qed.

Lemma length_9_inv (s : string) :
  String.length s = 9 ->
  exists x0 x1 x2 x3 x4 x5 x6 x7 x8,
    s = String x0 (String x1 (String x2 (String x3 (String x4
          (String x5 (String x6 (String x7 (String x8 EmptyString)))))))).
Proof.
  intros H.
  do 9 (destruct s as [|? s]; [discriminate H|]).
  destruct s; [|discriminate H].
  do 9 eexists. reflexivity.
Qed.

(** Six strings of nine characters stored one after the other. *)
Lemma store_six_faces (tU tD tF tB tL tR : string) (c : RubiksCube) :
  wf_cube c ->
  String.length tU = 9 -> String.length tD = 9 -> String.length tF = 9 ->
  String.length tB = 9 -> String.length tL = 9 -> String.length tR = 9 ->
  exists c',
    for_each (face_inputs_of tU tD tF tB tL tR)
      (fun p => set_face_from_string (fst p) (snd p)) c = (Ok tt, c') /\
    wf_cube c' /\
    get_face_string c' U = tU /\ get_face_string c' D = tD /\
    get_face_string c' F = tF /\ get_face_string c' B = tB /\
    get_face_string c' L = tL /\ get_face_string c' R = tR.
Proof.
  intros H HU HD HF HB HL HR. name_cells c H.
  destruct (length_9_inv _ HU) as (? & ? & ? & ? & ? & ? & ? & ? & ? & ->).
  destruct (length_9_inv _ HD) as (? & ? & ? & ? & ? & ? & ? & ? & ? & ->).
  destruct (length_9_inv _ HF) as (? & ? & ? & ? & ? & ? & ? & ? & ? & ->).
  destruct (length_9_inv _ HB) as (? & ? & ? & ? & ? & ? & ? & ? & ? & ->).
  destruct (length_9_inv _ HL) as (? & ? & ? & ? & ? & ? & ? & ? & ? & ->).
  destruct (length_9_inv _ HR) as (? & ? & ? & ? & ? & ? & ? & ? & ? & ->).
  eexists. split; [vm_compute; reflexivity|].
  split; [apply wf_cube_intro; apply wf_grid_intro|].
  repeat (split; [reflexivity|]). reflexivity.
Qed.

(** A failed validation leaves the cube alone, whatever the inputs. *)
Lemma update_cube_rejects (face_inputs : list (face_key * string)) (c : RubiksCube) :
  Exists (fun p => ~ passes_validation (snd p)) face_inputs ->
  snd (update_cube face_inputs c) = c.
Proof.
  intros Hbad. unfold update_cube.
  pose proof (validate_fst face_inputs true) as Hv.
  destruct (validate face_inputs true) as [v msgs].
  cbn [fst andb] in Hv. subst v.
  destruct (forallb (fun p => accepts (snd p)) face_inputs) eqn:E;
    [exfalso | reflexivity].
  apply List.Exists_exists in Hbad. destruct Hbad as (p & Hin & Hp).
  rewrite forallb_forall in E. apply Hp, accepts_iff, E, Hin.
Qed.

(** C9: on a well-formed cube, if one of the six strings fails the
    validation (its length is not 9, or one of its characters is no colour
    letter in either case), the handler leaves the cube as it was; if all
    six pass, it reports success and every face then reads as the upper-case
    form of its string. *)
Theorem manual_edit_all_or_nothing (sU sD sF sB sL sR : string) (c : RubiksCube) :
  wf_cube c ->
  let face_inputs := face_inputs_of sU sD sF sB sL sR in
  (Exists (fun p => ~ passes_validation (snd p)) face_inputs ->
     snd (update_cube face_inputs c) = c) /\
  (Forall (fun p => passes_validation (snd p)) face_inputs ->
     exists c', update_cube face_inputs c = ([cube_updated], c') /\
       wf_cube c' /\
       get_face_string c' U = str_upper sU /\ get_face_string c' D = str_upper sD /\
       get_face_string c' F = str_upper sF /\ get_face_string c' B = str_upper sB /\
       get_face_string c' L = str_upper sL /\ get_face_string c' R = str_upper sR).
Proof.
  intros Hc face_inputs. split.
  - apply update_cube_rejects.
  - intros Hgood.
    assert (forallb (fun p => accepts (snd p)) face_inputs = true) as E.
    { apply forallb_forall. intros p Hin. apply accepts_iff.
      rewrite List.Forall_forall in Hgood. now apply Hgood. }
    unfold update_cube. rewrite (validate_accepted _ true E).
    assert (forall s, In s [sU; sD; sF; sB; sL; sR] ->
                      String.length (str_upper s) = 9) as Hlen.
    { intros s Hs. rewrite str_upper_length.
      rewrite List.Forall_forall in Hgood.
      assert (exists k, In (k, s) face_inputs) as [k Hk].
      { unfold face_inputs, face_inputs_of. simpl in Hs |- *.
        repeat (destruct Hs as [<-|Hs]; [eexists; tauto|]). destruct Hs. }
      exact (proj1 (Hgood _ Hk)). }
    destruct (store_six_faces (str_upper sU) (str_upper sD) (str_upper sF)
                (str_upper sB) (str_upper sL) (str_upper sR) c Hc)
      as (c' & Erun & Hwf & Hfaces); try (apply Hlen; simpl; tauto).
    exists c'. split; [|split; assumption].
    unfold face_inputs, face_inputs_of in *. simpl in Erun |- *.
    now rewrite Erun.
Qed.

Lemma manual_edit_all_or_nothing_witness :
  snd (update_cube
         (face_inputs_of "YYYYYYYYY" "WWWWWWWW" "GGGGGGGGG"
                         "BBBBBBBBB" "OOOOOOOOO" "RRRRRRRRR") init) = init /\
  snd (update_cube
         (face_inputs_of "YYYYYYYYY" "WWWWWWWWW" "GGGGGGGGG"
                         "BBBBBBBBB" "OOOOxOOOO" "RRRRRRRRR") init) = init /\
  exists c',
    update_cube
      (face_inputs_of "yyyyyyyyy" "WWWWwWWWW" "gGgGgGgGg"
                      "BBBBBBBBB" "OOOOOOOOO" "RRRRRRRRR") init
      = ([cube_updated], c') /\
    wf_cube c' /\
    get_face_string c' U = str_upper "yyyyyyyyy" /\
    get_face_string c' D = str_upper "WWWWwWWWW" /\
    get_face_string c' F = str_upper "gGgGgGgGg" /\
    get_face_string c' B = str_upper "BBBBBBBBB" /\
    get_face_string c' L = str_upper "OOOOOOOOO" /\
    get_face_string c' R = str_upper "RRRRRRRRR".
Proof.
  split; [|split].
  - apply (manual_edit_all_or_nothing
             "YYYYYYYYY" "WWWWWWWW" "GGGGGGGGG"
             "BBBBBBBBB" "OOOOOOOOO" "RRRRRRRRR" init wf_init).
    apply List.Exists_cons_tl, List.Exists_cons_hd.
    intros [Hlen _]. discriminate Hlen.
  - apply (manual_edit_all_or_nothing
             "YYYYYYYYY" "WWWWWWWWW" "GGGGGGGGG"
             "BBBBBBBBB" "OOOOxOOOO" "RRRRRRRRR" init wf_init).
    do 4 apply List.Exists_cons_tl. apply List.Exists_cons_hd.
    intros Hp. apply accepts_iff in Hp. discriminate Hp.
  - apply (manual_edit_all_or_nothing
             "yyyyyyyyy" "WWWWwWWWW" "gGgGgGgGg"
             "BBBBBBBBB" "OOOOOOOOO" "RRRRRRRRR" init wf_init).
    repeat (apply List.Forall_cons; [apply accepts_iff; reflexivity|]).
    apply List.Forall_nil.
Defined.

(** * Further properties of the module *)

(** ** Face strings *)



(** Writing back the string just read from a face changes nothing. *)
Theorem face_string_write_back (face : face_key) (c : RubiksCube) :
  wf_cube c ->
  String.length (get_face_string c face) = 9 /\
  set_face_from_string face (get_face_string c face) c = (Ok tt, c).
Proof.
  intros H. name_cells c H. destruct face; split; vm_compute; reflexivity.
Qed.

Lemma face_string_write_back_witness :
  String.length (get_face_string init B) = 9 /\
  set_face_from_string B (get_face_string init B) init = (Ok tt, init).
Proof. apply (face_string_write_back B init). apply wf_init. Defined.

(** A string of nine characters stored in a face is the string read back
    from it, and the strings of the other faces are the ones from before. *)
Theorem face_string_read_back (face : face_key) (s : string) (c : RubiksCube) :
  wf_cube c -> String.length s = 9 ->
  exists c', set_face_from_string face s c = (Ok tt, c') /\
    get_face_string c' face = s /\
    forall k, k <> face -> get_face_string c' k = get_face_string c k.
Proof.
  intros H Hs. name_cells c H.
  destruct (length_9_inv _ Hs) as (? & ? & ? & ? & ? & ? & ? & ? & ? & ->).
  destruct face; eexists; (split; [vm_compute; reflexivity|]);
    (split; [reflexivity|]);
    intros [] Hk; solve [reflexivity | contradiction].
Qed.

Lemma face_string_read_back_witness :
  exists c', set_face_from_string F "WYROBGWYR" init = (Ok tt, c') /\
    get_face_string c' F = "WYROBGWYR"%string /\
    forall k, k <> F -> get_face_string c' k = get_face_string init k.
Proof.
  apply (face_string_read_back F "WYROBGWYR" init); [apply wf_init | reflexivity].
Defined.

(** ** The self-rotation of a face *)

(** The clockwise rotation returns normally, leaves the other faces alone
    and puts at row [i], column [j] what was at row [2 - j], column [i]; the
    counter-clockwise one undoes it, on either side. *)
Theorem rotate_face_laws (face : face_key) (c : RubiksCube) :
  wf_cube c ->
  (exists c', rotate_face_clockwise face c = (Ok tt, c') /\
     wf_cube c' /\
     (forall k, k <> face -> faces c' k = faces c k) /\
     (forall i j, i < 3 -> j < 3 -> cell c' face i j = cell c face (2 - j) i)) /\
  (rotate_face_clockwise face ;; rotate_face_counterclockwise face) c = (Ok tt, c) /\
  (rotate_face_counterclockwise face ;; rotate_face_clockwise face) c = (Ok tt, c).
Proof.
  intros H. name_cells c H.
  destruct face; (split; [|split; vm_compute; reflexivity]);
    eexists; (split; [vm_compute; reflexivity|]);
    (split; [apply wf_cube_intro; apply wf_grid_intro|]);
    (split; [intros [] Hk; solve [reflexivity | contradiction]|]);
    intros i j Hi Hj;
    (destruct i as [|[|[|i]]]; [| | |lia]);
    (destruct j as [|[|[|j]]]; [| | |lia]);
    reflexivity.
Qed.

Lemma rotate_face_laws_witness :
  (exists c', rotate_face_clockwise D init = (Ok tt, c') /\
     wf_cube c' /\
     (forall k, k <> D -> faces c' k = faces init k) /\
     (forall i j, i < 3 -> j < 3 -> cell c' D i j = cell init D (2 - j) i)) /\
  (rotate_face_clockwise D ;; rotate_face_counterclockwise D) init = (Ok tt, init) /\
  (rotate_face_counterclockwise D ;; rotate_face_clockwise D) init = (Ok tt, init).
Proof. apply (rotate_face_laws D init). apply wf_init. Defined.

(** ** The solved predicate on well-formed cubes *)

(** Among the well-formed cubes, [is_solved] holds of the new cube and of
    no other. *)
Theorem is_solved_iff_init (c : RubiksCube) :
  wf_cube c -> (is_solved c = true <-> c = init).
Proof.
  intros H. split; [|intros ->; reflexivity].
  name_cells c H. unfold is_solved, solved_faces.
  cbn [forallb faces face_U face_D face_F face_B face_L face_R].
  rewrite !andb_true_iff, !Ascii.eqb_eq.
  intros Hs. decompose [and] Hs. subst. reflexivity.
Qed.

Lemma is_solved_iff_init_witness : is_solved init = true <-> init = init.
Proof. apply (is_solved_iff_init init). apply wf_init. Defined.

(** ** Sequences of moves *)

Lemma for_each_app {A} (xs ys : list A) (body : A -> M unit) (c : RubiksCube) :
  for_each (xs ++ ys) body c = (for_each xs body ;; for_each ys body) c.
Proof.
  revert c. induction xs as [|x xs IH]; intros c; simpl.
  - reflexivity.
  - unfold bind in *. destruct (body x c) as [[[]|e] c1]; [|reflexivity].
    apply IH.
Qed.


(** From any well-formed state, any list of strings replays to the end
    without error; the state reached is well formed, holds every character
    as many times as the starting state and has the same six centres. *)
Theorem execute_moves_keeps_cells (ms : list string) (c : RubiksCube) :
  wf_cube c ->
  exists c', execute_moves ms c = (Ok tt, c') /\
    wf_cube c' /\
    (forall x, color_count x c' = color_count x c) /\
    (forall k, center c' k = center c k).
Proof.
  intros H. destruct (rearranges_execute_moves ms c H) as (c' & E & Hr).
  exists c'. split; [exact E|]. split; [apply Hr|]. split.
  - intros x. now apply rearranged_color_count.
  - apply Hr.
Qed.

Lemma execute_moves_keeps_cells_witness :
  exists c', execute_moves ["F"; "x"; "D2"; ""; "L'"]%string init = (Ok tt, c') /\
    wf_cube c' /\
    (forall x, color_count x c' = color_count x init) /\
    (forall k, center c' k = center init k).
Proof. apply (execute_moves_keeps_cells _ init). apply wf_init. Defined.

(** Turns of opposite faces commute. *)
Theorem opposite_faces_commute (c : RubiksCube) :
  wf_cube c ->
  execute_moves ["R"; "L"]%string c = execute_moves ["L"; "R"]%string c /\
  execute_moves ["U"; "D"]%string c = execute_moves ["D"; "U"]%string c /\
  execute_moves ["F"; "B"]%string c = execute_moves ["B"; "F"]%string c.
Proof.
  intros H. name_cells c H. (split; [|split]); vm_compute; reflexivity.
Qed.

Lemma opposite_faces_commute_witness :
  let c := snd (execute_moves ["R"; "U"; "F"]%string init) in
  execute_moves ["R"; "L"]%string c = execute_moves ["L"; "R"]%string c /\
  execute_moves ["U"; "D"]%string c = execute_moves ["D"; "U"]%string c /\
  execute_moves ["F"; "B"]%string c = execute_moves ["B"; "F"]%string c.
Proof.
  apply (opposite_faces_commute (snd (execute_moves ["R"; "U"; "F"]%string init))).
  intros []; apply wf_grid_intro.
Defined.

(** Turns of adjacent faces do not commute, even on the new cube. *)
Lemma adjacent_faces_do_not_commute :
  execute_moves ["R"; "U"]%string init <> execute_moves ["U"; "R"]%string init.
Proof. vm_compute. discriminate. Qed.

(** A clockwise turn of a face leaves the opposite face as it was. *)
Theorem opposite_face_untouched (c : RubiksCube) :
  wf_cube c ->
  faces (snd (move_R c)) L = faces c L /\ faces (snd (move_L c)) R = faces c R /\
  faces (snd (move_U c)) D = faces c D /\ faces (snd (move_D c)) U = faces c U /\
  faces (snd (move_F c)) B = faces c B /\ faces (snd (move_B c)) F = faces c F.
Proof.
  intros H. name_cells c H. repeat (split; [vm_compute; reflexivity|]).
  vm_compute; reflexivity.
Qed.

Lemma opposite_face_untouched_witness :
  faces (snd (move_R init)) L = faces init L /\
  faces (snd (move_L init)) R = faces init R /\
  faces (snd (move_U init)) D = faces init D /\
  faces (snd (move_D init)) U = faces init U /\
  faces (snd (move_F init)) B = faces init B /\
  faces (snd (move_B init)) F = faces init F.
Proof. apply (opposite_face_untouched init). apply wf_init. Defined.

(** Each token is undone by the token of [undo_token]. *)
Lemma undo_token_undoes (move : string) (c : RubiksCube) :
  In move moves -> wf_cube c ->
  In (undo_token move) moves /\
  exists c', execute_move move c = (Ok tt, c') /\ wf_cube c' /\
    execute_move (undo_token move) c' = (Ok tt, c).
Proof.
  intros Hin H. name_cells c H. unfold moves in Hin. simpl in Hin.
  repeat (destruct Hin as [<-|Hin];
          [split; [vm_compute; tauto|];
           eexists; split; [vm_compute; reflexivity|];
           split; [apply wf_cube_intro; apply wf_grid_intro|];
           vm_compute; reflexivity|]).
  destruct Hin.
Qed.

Lemma execute_moves_undo (ms : list string) :
  Forall (fun m => In m moves) ms ->
  forall c, wf_cube c ->
    execute_moves (ms ++ map undo_token (rev ms)) c = (Ok tt, c).
Proof.
  induction 1 as [|m ms Hm Hms IH]; intros c Hc.
  - reflexivity.
  - destruct (undo_token_undoes m c Hm Hc) as (_ & c1 & E1 & Hc1 & E2).
    simpl rev. rewrite map_app, app_assoc. simpl app.
    unfold execute_moves in *. cbn [for_each]. unfold bind at 1. rewrite E1.
    rewrite for_each_app. unfold bind at 1. rewrite (IH c1 Hc1).
    cbn [map for_each]. unfold bind. now rewrite E2.
Qed.

(** Every sequence of tokens can be undone: there is a sequence of as many
    tokens that, replayed after it, brings every well-formed state back to
    where it started. *)
Theorem every_sequence_has_an_undo (ms : list string) :
  Forall (fun m => In m moves) ms ->
  exists ms', length ms' = length ms /\
    Forall (fun m => In m moves) ms' /\
    forall c, wf_cube c -> execute_moves (ms ++ ms') c = (Ok tt, c).
Proof.
  intros Hms. exists (map undo_token (rev ms)). split; [|split].
  - now rewrite length_map, length_rev.
  - apply List.Forall_forall. intros m' Hm'.
    apply in_map_iff in Hm'. destruct Hm' as (m & <- & Hm).
    apply in_rev in Hm. rewrite List.Forall_forall in Hms.
    exact (proj1 (undo_token_undoes m init (Hms m Hm) wf_init)).
  - now apply execute_moves_undo.
Qed.

Lemma every_sequence_has_an_undo_witness :
  exists ms', length ms' = length ["R"; "U2"; "F'"]%string /\
    Forall (fun m => In m moves) ms' /\
    forall c, wf_cube c -> execute_moves (["R"; "U2"; "F'"]%string ++ ms') c = (Ok tt, c).
Proof.
  apply (every_sequence_has_an_undo ["R"; "U2"; "F'"]%string).
  repeat (apply List.Forall_cons; [unfold moves; simpl; tauto|]). apply List.Forall_nil.
Defined.

(** ** Scrambling *)

Lemma random_choice_moves (draw : nat) (c : RubiksCube) :
  draw < 18 ->
  exists move, random_choice moves draw c = (Ok move, c) /\ In move moves.
Proof.
  intros Hd. unfold random_choice, item.
  destruct (moves !! draw) as [move|] eqn:E.
  - exists move. split; [reflexivity|].
    apply list_elem_of_In, list_elem_of_lookup. now exists draw.
  - apply lookup_ge_None in E. simpl in E. lia.
Qed.

Lemma scramble_loop_replays (draws : list nat) :
  Forall (fun draw => draw < 18) draws ->
  forall (acc : list string) (c : RubiksCube), wf_cube c ->
  exists ms c',
    scramble_loop draws acc c = (Ok (acc ++ ms), c') /\
    length ms = length draws /\
    Forall (fun m => In m moves) ms /\
    execute_moves ms c = (Ok tt, c') /\
    rearranged c c'.
Proof.
  induction 1 as [|draw rest Hd Hrest IH]; intros acc c Hc.
  - exists [], c. simpl. rewrite app_nil_r.
    split; [reflexivity|]. split; [reflexivity|].
    split; [apply List.Forall_nil|]. split; [reflexivity|].
    now apply rearranged_refl.
  - destruct (random_choice_moves draw c Hd) as (move & Edraw & Hmove).
    destruct (rearranges_execute_move move c Hc) as (c1 & E1 & Hr1).
    destruct (IH (acc ++ [move]) c1 (proj1 Hr1)) as (ms & c' & E & Hlen & Hms & Erun & Hr).
    exists (move :: ms), c'. split; [|split; [|split; [|split]]].
    + cbn [scramble_loop]. unfold bind. rewrite Edraw, E1, E.
      now rewrite <- app_assoc.
    + simpl. now rewrite Hlen.
    + now apply List.Forall_cons.
    + unfold execute_moves in *. cbn [for_each]. unfold bind. now rewrite E1.
    + eapply rearranged_trans; eassumption.
Qed.

(** [scramble] on a well-formed cube never raises; it returns one
    recognised token per draw, and replaying the returned list from the
    state before the scramble leads to the state after it, which is well
    formed and holds every character as many times as before. *)
Theorem scramble_replays (draws : list nat) (c : RubiksCube) :
  wf_cube c -> Forall (fun draw => draw < 18) draws ->
  exists ms c',
    scramble draws c = (Ok ms, c') /\
    length ms = length draws /\
    Forall (fun m => In m moves) ms /\
    execute_moves ms c = (Ok tt, c') /\
    wf_cube c' /\
    (forall x, color_count x c' = color_count x c).
Proof.
  intros Hc Hd.
  destruct (scramble_loop_replays draws Hd [] c Hc)
    as (ms & c' & E & Hlen & Hms & Erun & Hr).
  exists ms, c'. repeat split; try assumption.
  - apply Hr.
  - apply Hr.
  - intros x. now apply rearranged_color_count.
Qed.

Lemma scramble_replays_witness :
  exists ms c',
    scramble [0; 17; 4; 4] init = (Ok ms, c') /\
    length ms = length [0; 17; 4; 4] /\
    Forall (fun m => In m moves) ms /\
    execute_moves ms init = (Ok tt, c') /\
    wf_cube c' /\
    (forall x, color_count x c' = color_count x init).
Proof.
  apply (scramble_replays [0; 17; 4; 4] init); [apply wf_init|].
  repeat (apply List.Forall_cons; [lia|]). apply List.Forall_nil.
Defined.

(** A scramble of no move returns the empty list and leaves every state,
    well formed or not, as it was. *)
Lemma scramble_nothing (c : RubiksCube) : scramble [] c = (Ok [], c).
Proof. reflexivity. Qed.

(** ** The fallback solver *)

(** Whatever number between 8 and 15 is drawn, [simple_solve] returns
    between 8 and 13 tokens, all recognised ones: the first [n] of the fixed
    list, and the whole list once [n] reaches 13. *)
Theorem simple_solve_bounds (n : nat) :
  8 <= n <= 15 ->
  8 <= length (simple_solve n) <= 13 /\
  length (simple_solve n) = Nat.min n 13 /\
  Forall (fun m => In m moves) (simple_solve n) /\
  (exists rest, solving_moves = simple_solve n ++ rest) /\
  (13 <= n -> simple_solve n = solving_moves).
Proof.
  intros Hn.
  assert (n = 8 \/ n = 9 \/ n = 10 \/ n = 11 \/ n = 12 \/ n = 13 \/ n = 14 \/ n = 15)
    as Hcases by lia.
  destruct Hcases as [->|[->|[->|[->|[->|[->|[->| ->]]]]]]];
    (split; [unfold simple_solve, solving_moves; simpl; lia|]);
    (split; [reflexivity|]);
    (split; [unfold simple_solve, solving_moves; simpl;
             repeat (apply List.Forall_cons; [unfold moves; simpl; tauto|]);
             apply List.Forall_nil|]);
    (split; [eexists; unfold simple_solve, solving_moves; simpl; reflexivity|]);
    intros H13; solve [reflexivity | lia].
Qed.

Lemma simple_solve_bounds_witness :
  8 <= length (simple_solve 15) <= 13 /\
  length (simple_solve 15) = Nat.min 15 13 /\
  Forall (fun m => In m moves) (simple_solve 15) /\
  (exists rest, solving_moves = simple_solve 15 ++ rest) /\
  (13 <= 15 -> simple_solve 15 = solving_moves).
Proof. apply (simple_solve_bounds 15). lia. Defined.

(** ** The canonical encoding, as a whole *)

Lemma string_app_assoc (s t u : string) :
  ((s ++ t) ++ u = s ++ (t ++ u))%string.
Proof. induction s as [|x s IH]; simpl; [reflexivity | now rewrite IH]. Qed.

Lemma string_app_nil_r (s : string) : (s ++ EmptyString = s)%string.
Proof. induction s as [|x s IH]; simpl; [reflexivity | now rewrite IH]. Qed.

Lemma string_of_list_ascii_app (l1 l2 : list ascii) :
  string_of_list_ascii (l1 ++ l2) =
  (string_of_list_ascii l1 ++ string_of_list_ascii l2)%string.
Proof. induction l1 as [|x l1 IH]; simpl; [reflexivity | now rewrite IH]. Qed.

Lemma fold_append_char (f : ascii -> ascii) (l : list ascii) (acc : string) :
  fold_left (fun s x => append_char s (f x)) l acc =
  (acc ++ string_of_list_ascii (map f l))%string.
Proof.
  revert acc. induction l as [|x l IH]; intros acc; simpl.
  - now rewrite string_app_nil_r.
  - rewrite IH. unfold append_char. now rewrite string_app_assoc.
Qed.

(** The accumulating loops of [get_kociemba_string] build the translation
    of the six face strings laid end to end, on every state. *)
Lemma get_kociemba_string_facelets (c : RubiksCube) :
  get_kociemba_string true c =
  Some (string_of_list_ascii (map kociemba_letter (facelets c))).
Proof.
  unfold get_kociemba_string, facelets, face_order, get_face_string.
  cbn [negb fold_left map]. f_equal.
  rewrite !list_ascii_of_string_of_list_ascii.
  rewrite !(fold_append_char (fun x => get_or_default KOCIEMBA_COLOR_MAP x x)).
  fold kociemba_letter. cbn [concat]. rewrite app_nil_r.
  rewrite !map_app, !string_of_list_ascii_app.
  cbn [String.append]. now rewrite !string_app_assoc.
Qed.

Lemma kociemba_letter_reverse (x : ascii) :
  In x valid_colors ->
  char_dict_get REVERSE_KOCIEMBA_MAP (kociemba_letter x) = Some x.
Proof.
  unfold valid_colors. simpl.
  intros [<-|[<-|[<-|[<-|[<-|[<-|[]]]]]]]; reflexivity.
Qed.

Lemma decode_letters (l : list ascii) :
  Forall (fun x => In x valid_colors) l ->
  map (char_dict_get REVERSE_KOCIEMBA_MAP) (map kociemba_letter l) = map Some l.
Proof.
  induction 1 as [|x l Hx Hl IH]; cbn [map]; [reflexivity|].
  now rewrite kociemba_letter_reverse, IH.
Qed.

(** On a cube whose cells are all colour letters, looking up each character
    of the encoding in [REVERSE_KOCIEMBA_MAP] gives back the six face
    strings in the order Up, Right, Front, Down, Left, Back. *)
Theorem kociemba_string_decodes (c : RubiksCube) :
  Forall (fun x => In x valid_colors) (facelets c) ->
  exists s, get_kociemba_string true c = Some s /\
    map (char_dict_get REVERSE_KOCIEMBA_MAP) (list_ascii_of_string s) =
    map Some (facelets c).
Proof.
  intros Hv. eexists. split; [apply get_kociemba_string_facelets|].
  rewrite list_ascii_of_string_of_list_ascii. now apply decode_letters.
Qed.

Lemma kociemba_string_decodes_witness :
  exists s, get_kociemba_string true init = Some s /\
    map (char_dict_get REVERSE_KOCIEMBA_MAP) (list_ascii_of_string s) =
    map Some (facelets init).
Proof.
  apply (kociemba_string_decodes init).
  unfold facelets, face_order. simpl.
  repeat (apply List.Forall_cons; [unfold valid_colors; simpl; tauto|]).
  apply List.Forall_nil.
Defined.

Lemma map_some_inj {A} (l1 l2 : list A) : map Some l1 = map Some l2 -> l1 = l2.
Proof.
  revert l2. induction l1 as [|x l1 IH]; intros [|y l2]; simpl; try discriminate.
  - reflexivity.
  - intros [= -> E]. f_equal. now apply IH.
Qed.

Lemma facelets_ext (c1 c2 : RubiksCube) :
  wf_cube c1 -> wf_cube c2 -> facelets c1 = facelets c2 -> c1 = c2.
Proof.
  intros H1 H2 E. name_cells c1 H1. name_cells c2 H2.
  unfold facelets, face_order in E. simpl in E.
  injection E as -> -> -> -> -> -> -> -> ->  -> -> -> -> -> -> -> -> ->
                 -> -> -> -> -> -> -> -> ->  -> -> -> -> -> -> -> -> ->
                 -> -> -> -> -> -> -> -> ->  -> -> -> -> -> -> -> -> ->.
  reflexivity.
Qed.

(** Two well-formed cubes of colour letters with the same encoding are the
    same cube. *)
Theorem kociemba_string_injective (c1 c2 : RubiksCube) :
  wf_cube c1 -> wf_cube c2 ->
  Forall (fun x => In x valid_colors) (facelets c1) ->
  Forall (fun x => In x valid_colors) (facelets c2) ->
  get_kociemba_string true c1 = get_kociemba_string true c2 ->
  c1 = c2.
Proof.
  intros H1 H2 V1 V2 E.
  rewrite !get_kociemba_string_facelets in E. injection E as E.
  apply (f_equal list_ascii_of_string) in E.
  rewrite !list_ascii_of_string_of_list_ascii in E.
  apply facelets_ext; try assumption.
  apply map_some_inj. rewrite <- (decode_letters _ V1), <- (decode_letters _ V2).
  now rewrite E.
Qed.

Lemma valid_facelets_init : Forall (fun x => In x valid_colors) (facelets init).
Proof.
  unfold facelets, face_order. simpl.
  repeat (apply List.Forall_cons; [unfold valid_colors; simpl; tauto|]).
  apply List.Forall_nil.
Qed.

Lemma kociemba_string_injective_witness :
  init = snd (execute_moves ["R"; "R'"]%string init).
Proof.
  apply (kociemba_string_injective init (snd (execute_moves ["R"; "R'"]%string init))).
  - apply wf_init.
  - intros []; apply wf_grid_intro.
  - apply valid_facelets_init.
  - apply valid_facelets_init.
  - vm_compute; reflexivity.
Defined.

(** Without the colour-letter condition two different cubes can share an
    encoding: a face of [U]s is encoded like a face of [W]s. *)
Lemma kociemba_string_collision :
  let c := store_face init U (uniform_grid "U") in
  c <> init /\ get_kociemba_string true c = get_kociemba_string true init.
Proof. split; [discriminate | vm_compute; reflexivity]. Qed.

(** ** The encoding of the states reached from a new cube *)

Lemma facelets_cells (c : RubiksCube) : Permutation (facelets c) (cells c).
Proof.
  unfold facelets, cells, face_order. cbn [map concat].
  rewrite !app_nil_r. solve_Permutation.
Qed.

Lemma string_of_list_ascii_length (l : list ascii) :
  String.length (string_of_list_ascii l) = length l.
Proof. induction l as [|x l IH]; simpl; [reflexivity | now rewrite IH]. Qed.

(** Whatever strings are replayed on a new cube, the encoding of the state
    reached has 54 characters, nine of each of the letters U, R, F, D, L and
    B, and the middle characters of its six blocks of nine are, in order,
    U, F, R, D, B and L. *)
Theorem reached_kociemba_string (ms : list string) :
  exists c s,
    execute_moves ms init = (Ok tt, c) /\
    get_kociemba_string true c = Some s /\
    String.length s = 54 /\
    Forall (fun y => count_occ ascii_dec (list_ascii_of_string s) y = 9)
           ["U"; "R"; "F"; "D"; "L"; "B"] /\
    String.get 4 s = Some "U" /\ String.get 13 s = Some "F" /\
    String.get 22 s = Some "R" /\ String.get 31 s = Some "D" /\
    String.get 40 s = Some "B" /\ String.get 49 s = Some "L".
Proof.
  destruct (rearranges_execute_moves ms init wf_init) as (c & E & Hwf & Hp & Hc).
  exists c. eexists. split; [exact E|].
  split; [apply get_kociemba_string_facelets|].
  assert (Permutation (map kociemba_letter (facelets c))
                      (map kociemba_letter (cells init))) as Hperm.
  { apply Permutation_map. now rewrite facelets_cells. }
  split; [|split].
  - rewrite string_of_list_ascii_length.
    now rewrite (Permutation_length Hperm).
  - rewrite list_ascii_of_string_of_list_ascii.
    apply List.Forall_forall. intros y Hy.
    rewrite (proj1 (Permutation_count_occ ascii_dec _ _) Hperm).
    simpl in Hy. decompose [or] Hy; subst; try contradiction; reflexivity.
  - pose proof (Hc U) as HU. pose proof (Hc D) as HD. pose proof (Hc F) as HF.
    pose proof (Hc B) as HB. pose proof (Hc L) as HL. pose proof (Hc R) as HR.
    clear E Hp Hc Hperm. name_cells c Hwf.
    vm_compute in HU, HD, HF, HB, HL, HR.
    injection HU as ->. injection HD as ->. injection HF as ->.
    injection HB as ->. injection HL as ->. injection HR as ->.
    repeat split; reflexivity.
Qed.

(** ** The manual-input handler, further *)








Lemma all_valid_colors_iff (s : string) :
  all_valid_colors s = true <->
  Forall (fun ch => In ch ["W"; "Y"; "R"; "O"; "B"; "G";
                           "w"; "y"; "r"; "o"; "b"; "g"])
         (list_ascii_of_string s).
Proof.
  unfold all_valid_colors. rewrite forallb_forall, List.Forall_forall.
  split; intros Hch ch Hin; specialize (Hch ch Hin);
    rewrite upper_in_valid_colors in *.
  - apply existsb_exists in Hch. destruct Hch as (y & Hy & E).
    apply Ascii.eqb_eq in E. now subst.
  - apply existsb_exists. exists ch. split; [exact Hch | apply Ascii.eqb_refl].
Qed.

Lemma validate_reports (face_inputs : list (face_key * string)) (all_valid : bool)
      (m : message) :
  In m (snd (validate face_inputs all_valid)) <->
  exists k s, In (k, s) face_inputs /\
    ((m = must_have_9_characters k /\ String.length s <> 9) \/
     (m = contains_invalid_colors k /\ String.length s = 9 /\
      all_valid_colors s = false)).
Proof.
  revert all_valid.
  induction face_inputs as [|[k s] rest IH]; intros all_valid.
  - simpl. split; [intros [] | intros (? & ? & [] & _)].
  - cbn [validate].
    destruct (Nat.eqb_spec (String.length s) 9) as [Hlen|Hlen]; cbn [negb].
    + destruct (all_valid_colors s) eqn:Hcol; cbn [negb].
      * rewrite IH. split.
        -- intros (k' & s' & Hin & H). exists k', s'. split; [now right | exact H].
        -- intros (k' & s' & [Heq|Hin] & Hm); [injection Heq as -> ->|].
           ++ destruct Hm as [[_ H']|[_ [_ H']]]; [contradiction | congruence].
           ++ exists k', s'. now split.
      * specialize (IH false). destruct (validate rest false) as [v msgs].
        cbn [snd] in *. split.
        -- intros [<-|Hin].
           ++ exists k, s. split; [now left | right; auto].
           ++ apply IH in Hin. destruct Hin as (k' & s' & Hin & H).
              exists k', s'. split; [now right | exact H].
        -- intros (k' & s' & [Heq|Hin] & Hm); [injection Heq as -> ->|].
           ++ destruct Hm as [[_ H']|[-> _]]; [contradiction | now left].
           ++ right. apply IH. now exists k', s'.
    + specialize (IH false). destruct (validate rest false) as [v msgs].
      cbn [snd] in *. split.
      * intros [<-|Hin].
        -- exists k, s. split; [now left | left; auto].
        -- apply IH in Hin. destruct Hin as (k' & s' & Hin & H).
           exists k', s'. split; [now right | exact H].
      * intros (k' & s' & [Heq|Hin] & Hm); [injection Heq as -> ->|].
        -- destruct Hm as [[-> _]|[_ [H' _]]]; [now left | contradiction].
        -- right. apply IH. now exists k', s'.
Qed.

(** What the handler reports, for any inputs and any cube: a face is
    reported as not having 9 characters exactly when its string has another
    length; it is reported as containing invalid colours exactly when its
    string has 9 characters, one of which is no colour letter in either
    case; and success is reported only if every string passed. *)
Theorem update_cube_reports (face_inputs : list (face_key * string))
        (c : RubiksCube) (k : face_key) :
  let msgs := fst (update_cube face_inputs c) in
  (In (must_have_9_characters k) msgs <->
     exists s, In (k, s) face_inputs /\ String.length s <> 9) /\
  (In (contains_invalid_colors k) msgs <->
     exists s, In (k, s) face_inputs /\ String.length s = 9 /\
       ~ Forall (fun ch => In ch ["W"; "Y"; "R"; "O"; "B"; "G";
                                  "w"; "y"; "r"; "o"; "b"; "g"])
                (list_ascii_of_string s)) /\
  (In cube_updated msgs ->
     Forall (fun p => passes_validation (snd p)) face_inputs).
Proof.
  intros msgs.
  assert (forall s, all_valid_colors s = false <->
            ~ Forall (fun ch => In ch ["W"; "Y"; "R"; "O"; "B"; "G";
                                       "w"; "y"; "r"; "o"; "b"; "g"])
                     (list_ascii_of_string s)) as Hfalse.
  { intros s. rewrite <- all_valid_colors_iff.
    destruct (all_valid_colors s); split; congruence. }
  pose proof (validate_fst face_inputs true) as Hfst.
  pose proof (validate_reports face_inputs true) as Hrep.
  destruct (forallb (fun p => accepts (snd p)) face_inputs) eqn:Hall.
  - assert (forall m, In m msgs -> m = cube_updated \/ exists e, m = error_updating_cube e)
      as Hmsgs.
    { subst msgs. unfold update_cube.
      rewrite (validate_accepted _ true Hall).
      destruct (for_each _ _ c) as [[[]|e] c']; cbn [fst app];
        intros m [<-|[]]; eauto. }
    assert (forall s, In (k, s) face_inputs -> accepts s = true) as Hacc.
    { intros s Hin. rewrite forallb_forall in Hall. exact (Hall (k, s) Hin). }
    split; [|split].
    + split.
      * intros Hin. destruct (Hmsgs _ Hin) as [H|[e H]]; discriminate H.
      * intros (s & Hin & Hlen). apply Hacc in Hin. unfold accepts in Hin.
        apply andb_true_iff in Hin. destruct Hin as [Hin _].
        apply Nat.eqb_eq in Hin. contradiction.
    + split.
      * intros Hin. destruct (Hmsgs _ Hin) as [H|[e H]]; discriminate H.
      * intros (s & Hin & _ & Hbad). apply Hacc in Hin.
        apply accepts_iff in Hin. exfalso. apply Hbad, Hin.
    + intros _. apply List.Forall_forall. intros p Hp.
      apply accepts_iff. rewrite forallb_forall in Hall. now apply Hall.
  - assert (msgs = snd (validate face_inputs true)) as ->.
    { subst msgs. unfold update_cube.
      destruct (validate face_inputs true) as [v ms]. cbn [fst andb] in Hfst.
      subst v. reflexivity. }
    split; [|split].
    + rewrite Hrep. split.
      * intros (k' & s & Hin & [[[= ->] Hlen]|[[=] _]]). now exists s.
      * intros (s & Hin & Hlen). exists k, s. split; [exact Hin | left; auto].
    + rewrite Hrep. split.
      * intros (k' & s & Hin & [[[=] _]|[[= ->] [Hlen Hcol]]]).
        exists s. split; [exact Hin|]. split; [exact Hlen|]. now apply Hfalse.
      * intros (s & Hin & Hlen & Hbad). exists k, s. split; [exact Hin|].
        right. split; [reflexivity|]. split; [exact Hlen|]. now apply Hfalse.
    + intros Hin. apply Hrep in Hin.
      destruct Hin as (k' & s & _ & [[[=] _]|[[=] _]]).
Qed.
